(** * router_utils: advertisement flags of the [routers] command group

    A shallow embedding of
    [googlecloudsdk/command_lib/compute/routers/router_utils.py]
    and the properties of its helpers.

    Language level.  The module belongs to a Cloud SDK release that runs on
    Python 2.7 only, so the built-ins are read with their Python 2 meaning:
    [map] returns a list (its truth value is "non-empty"), [str] is a byte
    string compared byte-wise, [str.upper] touches the ASCII letters only,
    and [None] orders below every string. *)

From Stdlib Require Import Strings.String Strings.Ascii NArith.
From Stdlib Require Import Structures.OrderedTypeEx.
From stdpp Require Import gmap strings list fin_maps sorting.

Local Open Scope string_scope.

(** ** Python values used by the module *)

(** The exceptions that can leave the module's functions.  [ParserRefusal]
    stands for whatever the flag parser raises to refuse a value: which
    exception that is, and its text, belong to the parser. *)
Inductive PyExc : Type :=
| ValueError (msg : string)
| TypeError (msg : string)
| AttributeError (msg : string)
| ParserRefusal (value : string)
| CustomWithDefaultError (msg : string).

(** A Python computation: it returns, raises, asks the user a yes/no question
    on the console and goes on with the answer, or aborts the command that
    runs it because the user cancelled. *)
Inductive Py (A : Type) : Type :=
| Return (a : A)
| Throw (e : PyExc)
| Cancel
| Ask (message : string) (k : bool → Py A).
Arguments Return {A} a.
Arguments Throw {A} e.
Arguments Cancel {A}.
Arguments Ask {A} message k.

Fixpoint py_bind {A B} (f : A → Py B) (c : Py A) : Py B :=
  match c with
  | Return a => f a
  | Throw e => Throw e
  | Cancel => Cancel
  | Ask message k => Ask message (λ yes, py_bind f (k yes))
  end.

Global Instance py_ret : MRet Py := @Return.
Global Instance py_mbind : MBind Py := @py_bind.
Global Instance py_fmap : FMap Py := λ A B f, py_bind (λ a, Return (f a)).

(** What an observer of a whole run sees. *)
Inductive Outcome (A : Type) : Type :=
| Returned (a : A)
| Raised (e : PyExc)
| Cancelled.
Arguments Returned {A} a.
Arguments Raised {A} e.
Arguments Cancelled {A}.

(** [run user c]: the messages shown on the console, in order, and the
    outcome, when [user] answers each question. *)
Fixpoint run {A} (user : string → bool) (c : Py A) : list string * Outcome A :=
  match c with
  | Return a => ([], Returned a)
  | Throw e => ([], Raised e)
  | Cancel => ([], Cancelled)
  | Ask message k =>
      let r := run user (k (user message)) in (message :: r.1, r.2)
  end.

Definition prompts {A} (c : Py A) : bool :=
  match c with Ask _ _ => true | _ => false end.

(** A [dict] with string keys, as the sequence its [items()] yields: the keys
    are pairwise distinct and the order is whatever the interpreter's hash
    table gives. *)
Record PyDict (V : Type) : Type := mkDict { items : list (string * V) }.
Arguments mkDict {V} items.
Arguments items {V} _.

Definition dict_wf {V} (d : PyDict V) : Prop := NoDup (items d).*1.

(** The mapping a dict denotes. *)
Definition contents {V} (d : PyDict V) : gmap string V := list_to_map (items d).

(** [key in d] *)
Definition dict_in {V} (key : string) (d : PyDict V) : bool :=
  bool_decide (key ∈ (items d).*1).

(** [template.format(name=value)] for a template whose only replacement
    field is [placeholder], e.g. ["{resource}"] or ["{0}"]. *)
Fixpoint format_go (placeholder value : string) (skip : nat) (template : string)
  : string :=
  match template with
  | EmptyString => EmptyString
  | String c rest =>
      match skip with
      | S n => format_go placeholder value n rest
      | O =>
          if String.prefix placeholder template
          then value +:+ format_go placeholder value
                           (String.length placeholder - 1) rest
          else String c (format_go placeholder value 0 rest)
      end
  end.

Definition format (template placeholder value : string) : string :=
  format_go placeholder value 0 template.

(** [list.sort(key=...)]: a stable sort that only ever asks [<] of two keys.
    Every stable sort returns the same list; this one inserts each element,
    left to right, behind the elements that are not greater. *)
Section list_sort.
Context {A K : Type} (lt : K → K → bool) (key : A → K).

Fixpoint sort_insert (x : A) (l : list A) : list A :=
  match l with
  | [] => [x]
  | y :: l' => if lt (key x) (key y) then x :: l else y :: sort_insert x l'
  end.

Definition list_sort (l : list A) : list A :=
  fold_left (λ acc x, sort_insert x acc) l [].
End list_sort.

(** [<] on two [str] objects. *)
Definition str_lt (a b : string) : bool := String.ltb a b.

(** [<] on two values that are a [str] or [None]. *)
Definition opt_str_lt (a b : option string) : bool :=
  match a, b with
  | None, Some _ => true
  | Some x, Some y => str_lt x y
  | _, None => false
  end.

(** [<] on two 2-tuples: the first position where they differ decides. *)
Definition tuple_lt (a b : string * option string) : bool :=
  if bool_decide (a.1 = b.1) then opt_str_lt a.2 b.2 else str_lt a.1 b.1.

(** ** The API messages *)

(** The message classes a caller can pass as [resource_class].  The two
    router messages carry the nested advertisement enums; another class may
    or may not. *)
Inductive ResourceClass : Type :=
| RouterBgp
| RouterBgpPeer
| OtherClass (class_str : string) (has_enums : bool).

Global Instance ResourceClass_eq_dec : EqDecision ResourceClass.
Proof. solve_decision. Defined.

Inductive AdvertiseMode : Type := DEFAULT | CUSTOM.
Inductive AdvertisedGroup : Type := ALL_SUBNETS.

Global Instance AdvertiseMode_eq_dec : EqDecision AdvertiseMode.
Proof. solve_decision. Defined.
Global Instance AdvertisedGroup_eq_dec : EqDecision AdvertisedGroup.
Proof. solve_decision. Defined.

(** An enum member is an object of the enum nested in one message class:
    [RouterBgp.AdvertiseModeValueValuesEnum.DEFAULT] and
    [RouterBgpPeer.AdvertiseModeValueValuesEnum.DEFAULT] are two objects. *)
Record EnumValue (E : Type) : Type :=
  mkEnum { enum_class : ResourceClass; enum_member : E }.
Arguments mkEnum {E} enum_class enum_member.
Arguments enum_class {E} _.
Arguments enum_member {E} _.

Global Instance EnumValue_eq_dec {E} `{EqDecision E} : EqDecision (EnumValue E).
Proof. solve_decision. Defined.

(** [a is b] on enum members. *)
Definition is_ {E} `{EqDecision E} (a b : EnumValue E) : bool :=
  bool_decide (a = b).

Record RouterAdvertisedPrefix : Type :=
  mkPrefix { prefix : string; description : option string }.

Definition class_str_of (resource_class : ResourceClass) : string :=
  match resource_class with
  | RouterBgp => "<class 'RouterBgp'>"
  | RouterBgpPeer => "<class 'RouterBgpPeer'>"
  | OtherClass s _ => s
  end.

Definition has_advertise_enums (resource_class : ResourceClass) : bool :=
  match resource_class with
  | OtherClass _ b => b
  | _ => true
  end.

(** [resource_class.<enum_name>]: the attribute lookup. *)
Definition get_enum (resource_class : ResourceClass) (enum_name : string)
  : Py unit :=
  if has_advertise_enums resource_class then Return ()
  else Throw (AttributeError
                ("type object has no attribute '" +:+ enum_name +:+ "'")).

(** Modelled from the spec: the generated enum classes are not part of the
    module; the data model gives AdvertiseMode the members DEFAULT and CUSTOM
    and AdvertisedGroup the single member ALL_SUBNETS.  Calling the enum
    class with a name returns that member, and raises [TypeError] for a name
    that is not one. *)
Definition mode_by_name (name : string) : option AdvertiseMode :=
  if bool_decide (name = "DEFAULT") then Some DEFAULT
  else if bool_decide (name = "CUSTOM") then Some CUSTOM
  else None.

Definition group_by_name (name : string) : option AdvertisedGroup :=
  if bool_decide (name = "ALL_SUBNETS") then Some ALL_SUBNETS else None.

Definition enum_call {E} (by_name : string → option E)
    (resource_class : ResourceClass) (enum_name name : string)
  : Py (EnumValue E) :=
  match by_name name with
  | Some m => Return (mkEnum resource_class m)
  | None => Throw (TypeError
                     ("No such value for " +:+ name +:+ " in Enum " +:+ enum_name))
  end.

(** [resource_class.AdvertiseModeValueValuesEnum.<member>] *)
Definition AdvertiseModeValueValuesEnum (resource_class : ResourceClass)
    (member : AdvertiseMode) : Py (EnumValue AdvertiseMode) :=
  get_enum resource_class "AdvertiseModeValueValuesEnum" ≫= λ _,
  Return (mkEnum resource_class member).

(** ** The module *)

Definition _MODE_CHOICES : PyDict string := mkDict [
  ("DEFAULT", "Default (Google-managed) BGP advertisements.");
  ("CUSTOM", "Custom (user-configured) BGP advertisements.") ].

Definition _GROUP_CHOICES : PyDict string := mkDict [
  ("ALL_SUBNETS", "Automatically advertise all available subnets.") ].

Definition _MODE_SWITCH_MESSAGE : string :=
  "WARNING: switching from custom advertisement mode to " +:+
  "default will clear out any existing advertised " +:+
  "groups/ranges from this {resource}.".

Definition _CUSTOM_WITH_DEFAULT_ERROR_MESSAGE : string :=
  "Cannot specify custom advertisements " +:+
  "for a {resource} with default mode.".

Definition _GetResourceClassStr (resource_class : ResourceClass) : Py string :=
  if bool_decide (resource_class = RouterBgp) then Return "router"
  else if bool_decide (resource_class = RouterBgpPeer) then Return "peer"
  else Throw (ValueError
                (format "Invalid resource_class value: {0}" "{0}"
                   (class_str_of resource_class))).

(** [CustomWithDefaultError(messages, resource_class)]: the constructor. *)
Definition CustomWithDefaultError_init (resource_class : ResourceClass)
  : Py PyExc :=
  resource_str ← _GetResourceClassStr resource_class;
  Return (CustomWithDefaultError
            (format _CUSTOM_WITH_DEFAULT_ERROR_MESSAGE "{resource}" resource_str)).

Definition ParseMode (resource_class : ResourceClass) (mode : string)
  : Py (EnumValue AdvertiseMode) :=
  get_enum resource_class "AdvertiseModeValueValuesEnum" ≫= λ _,
  enum_call mode_by_name resource_class "AdvertiseModeValueValuesEnum" mode.

(** [map(enum, groups)]: the list of the converted elements; the first name
    that is no member raises.  The result is tested with [or] below and ends
    up in a repeated message field, both of which want the list. *)
Definition ParseGroups (resource_class : ResourceClass) (groups : list string)
  : Py (list (EnumValue AdvertisedGroup)) :=
  get_enum resource_class "AdvertisedGroupsValueListEntryValuesEnum" ≫= λ _,
  mapM (enum_call group_by_name resource_class
          "AdvertisedGroupsValueListEntryValuesEnum") groups.

Definition attrgetter_prefix_description (p : RouterAdvertisedPrefix)
  : string * option string := (prefix p, description p).

Definition ParsePrefixes (ranges : PyDict (option string))
  : list RouterAdvertisedPrefix :=
  let prefixes := (λ '(prefix, description), mkPrefix prefix description)
                    <$> items ranges in
  list_sort tuple_lt attrgetter_prefix_description prefixes.

(** The parsed flags the module reads: [args.mode], [args.groups] and
    [args.ranges], each [None] when the flag was not given. *)
Record Args : Type := mkArgs {
  mode : option string;
  groups : option (list string);
  ranges : option (PyDict (option string));
}.

(** The truth value of a list or [None]. *)
Definition truthy {A} (v : option (list A)) : bool :=
  match v with
  | Some (_ :: _) => true
  | _ => false
  end.

Definition Advertisements : Type :=
  option (EnumValue AdvertiseMode)
  * option (list (EnumValue AdvertisedGroup))
  * option (list RouterAdvertisedPrefix).

(** [x = None], then [if arg is not None: x = parse(arg)]. *)
Definition parse_if_given {A B} (parse : A → Py B) (arg : option A)
  : Py (option B) :=
  match arg with
  | Some a => Some <$> parse a
  | None => Return None
  end.

Definition ParseAdvertisements (resource_class : ResourceClass) (args : Args)
  : Py Advertisements :=
  mode ← parse_if_given (ParseMode resource_class) (mode args);
  groups ← parse_if_given (ParseGroups resource_class) (groups args);
  let prefixes := ParsePrefixes <$> ranges args in
  is_default ← match mode with
               | None => Return false
               | Some m =>
                   is_ m <$> AdvertiseModeValueValuesEnum resource_class DEFAULT
               end;
  if is_default : bool then
    if truthy groups || truthy prefixes then
      CustomWithDefaultError_init resource_class ≫= Throw
    else
      Return (mode, Some [], Some [])
  else
    Return (mode, groups, prefixes).

(** Modelled from the spec: [console_io.PromptContinue] is not part of the
    module.  It requests interactive confirmation, showing [message]; if the
    user declines and [cancel_on_no] is set, the overall operation is aborted
    as a cancellation, not as a recoverable error; otherwise the answer is
    returned. *)
Definition PromptContinue (message : string) (cancel_on_no : bool) : Py bool :=
  Ask message (λ yes,
    if yes then Return true
    else if cancel_on_no then Cancel else Return false).

Definition PromptIfSwitchToDefaultMode (resource_class : ResourceClass)
    (existing_mode new_mode : option (EnumValue AdvertiseMode)) : Py unit :=
  from_custom ← match existing_mode with
                | None => Return false
                | Some e =>
                    is_ e <$> AdvertiseModeValueValuesEnum resource_class CUSTOM
                end;
  to_default ← (if from_custom : bool then
                  match new_mode with
                  | None => Return false
                  | Some n =>
                      is_ n <$> AdvertiseModeValueValuesEnum resource_class DEFAULT
                  end
                else Return false);
  if to_default : bool then
    resource_str ← _GetResourceClassStr resource_class;
    PromptContinue (format _MODE_SWITCH_MESSAGE "{resource}" resource_str) true
      ≫= λ _, Return ()
  else
    Return ().

(** [str.upper()] *)
Definition ascii_upper (c : ascii) : ascii :=
  let n := N_of_ascii c in
  if ((97 <=? n) && (n <=? 122))%N then ascii_of_N (n - 32) else c.

Fixpoint upper (s : string) : string :=
  match s with
  | EmptyString => EmptyString
  | String c rest => String (ascii_upper c) (upper rest)
  end.

(** Modelled from the spec: the flag parser ([add_argument] and
    [arg_parsers.ArgList]) is not part of the module.  A flag registered with
    a [type] and [choices] converts the raw string with [type] and then
    requires the converted value to be one of the choices; a list flag does so
    for each element, with [element_type] as the conversion.  A value outside
    the choices is refused; how the parser reports that is not modelled. *)
Definition typed_choice (type : string → string) (choices : PyDict string)
    (raw : string) : Py string :=
  let value := type raw in
  if dict_in value choices then Return value
  else Throw (ParserRefusal value).

Definition ArgList (element_type : string → string) (choices : PyDict string)
    (raw : list string) : Py (list string) :=
  mapM (typed_choice element_type choices) raw.

(** The [--mode] and [--groups] flags as [AddCustomAdvertisementArgs]
    registers them. *)
Definition mode_flag : string → Py string :=
  typed_choice (λ mode, upper mode) _MODE_CHOICES.

Definition groups_flag : list string → Py (list string) :=
  ArgList (λ mode, upper mode) _GROUP_CHOICES.

(** ** Vocabulary of the specification *)

(** ResourceKind: the owning entity, "router" or "peer". *)
Inductive ResourceKind : Type := router | peer.

Definition kind_class (k : ResourceKind) : ResourceClass :=
  match k with router => RouterBgp | peer => RouterBgpPeer end.

Definition kind_str (k : ResourceKind) : string :=
  match k with router => "router" | peer => "peer" end.

(** Ascending order on strings and on optional descriptions. *)
Definition str_le (a b : string) : Prop := a = b ∨ String.compare a b = Lt.

Definition desc_le (a b : option string) : Prop :=
  match a, b with
  | None, _ => True
  | Some _, None => False
  | Some x, Some y => str_le x y
  end.

(** Lexicographic order on the pair (cidr, description). *)
Definition pair_le (a b : RouterAdvertisedPrefix) : Prop :=
  String.compare (prefix a) (prefix b) = Lt
  ∨ (prefix a = prefix b ∧ desc_le (description a) (description b)).

Definition sorted_by_cidr_description (l : list RouterAdvertisedPrefix) : Prop :=
  StronglySorted pair_le l.

(** Two characters that are the same up to the case of an ASCII letter. *)
Definition is_ascii_letter (c : ascii) : bool :=
  let n := N_of_ascii c in
  (((65 <=? n) && (n <=? 90)) || ((97 <=? n) && (n <=? 122)))%N.

Definition same_char_nocase (a b : ascii) : bool :=
  bool_decide (a = b)
  || (is_ascii_letter a && is_ascii_letter b
      && (N.lxor (N_of_ascii a) (N_of_ascii b) =? 32)%N).

(** [casing_of s c]: [s] spells [c] in some casing. *)
Fixpoint casing_of (s c : string) : bool :=
  match s, c with
  | EmptyString, EmptyString => true
  | String a s', String b c' => same_char_nocase a b && casing_of s' c'
  | _, _ => false
  end.

(** Every supplied group name is the name of a member of the group enum, as
    the choices of the [--groups] flag make sure. *)
Definition group_names_valid (args : Args) : Prop :=
  ∀ g, groups args = Some g → Forall (λ name, is_Some (group_by_name name)) g.

(** The element-wise conversion of valid group names: each is the name of
    the member ALL_SUBNETS of the class's group enum. *)
Definition group_members (resource_class : ResourceClass) (g : list string)
  : list (EnumValue AdvertisedGroup) :=
  (λ _, mkEnum resource_class ALL_SUBNETS) <$> g.

(** The groups list or the ranges map is supplied and non-empty. *)
Definition supplies_custom (args : Args) : Prop :=
  (∃ g, groups args = Some g ∧ g ≠ [])
  ∨ (∃ r, ranges args = Some r ∧ items r ≠ []).

(** The warning shown before the switch to default mode. *)
Definition mode_switch_warning (k : ResourceKind) : string :=
  "WARNING: switching from custom advertisement mode to default will clear "
  +:+ "out any existing advertised groups/ranges from this "
  +:+ kind_str k +:+ ".".

Definition custom_with_default_message (k : ResourceKind) : string :=
  "Cannot specify custom advertisements for a " +:+ kind_str k
  +:+ " with default mode.".

(** The argument set came through the registered flags: a mode that
    [--mode] returned, groups that [--groups] returned. *)
Definition from_flags (args : Args) : Prop :=
  (∀ m, mode args = Some m → ∃ raw, mode_flag raw = Return m)
  ∧ (∀ g, groups args = Some g → ∃ raws, groups_flag raws = Return g).

(** Strictly ascending by cidr alone. *)
Definition strictly_ascending_by_cidr (l : list RouterAdvertisedPrefix) : Prop :=
  StronglySorted (λ a b, String.compare (prefix a) (prefix b) = Lt) l.

(** A computation that leaves the console alone: it returns or raises. *)
Definition never_interacts {A} (c : Py A) : Prop :=
  match c with
  | Return _ | Throw _ => True
  | Cancel | Ask _ _ => False
  end.

(** A computation that returns, or raises an exception satisfying [P],
    without touching the console. *)
Definition returns_or_throws {A} (P : PyExc → Prop) (c : Py A) : Prop :=
  match c with
  | Return _ => True
  | Throw e => P e
  | _ => False
  end.

Definition not_custom_with_default (e : PyExc) : Prop :=
  match e with CustomWithDefaultError _ => False | _ => True end.

(** The 256 characters. *)
Definition all_ascii : list ascii := ascii_of_nat <$> seq 0 256.

Definition upper_respects_casing : bool :=
  forallb (λ a, forallb (λ b,
    implb (same_char_nocase a b)
          (bool_decide (ascii_upper a = ascii_upper b))) all_ascii) all_ascii.

Ltac dict_wf_by_computation :=
  unfold dict_wf; simpl; apply (bool_decide_unpack _); vm_compute; exact I.

Ltac py_unfold :=
  unfold mbind, py_mbind, fmap, py_fmap, mret, py_ret in *; simpl in *.

(** ** Facts about the order on strings *)

Lemma str_lt_compare a b : str_lt a b = true ↔ String.compare a b = Lt.
Proof.
  unfold str_lt, String.ltb. destruct (String.compare a b); split; congruence.
Qed.

Lemma compare_lt_trans a b c :
  String.compare a b = Lt → String.compare b c = Lt → String.compare a c = Lt.
Proof.
  intros Hab Hbc. apply String_as_OT.cmp_lt.
  eapply String_as_OT.lt_trans; apply String_as_OT.cmp_lt; eassumption.
Qed.

Lemma compare_lt_irrefl a : String.compare a a ≠ Lt.
Proof.
  assert (String.compare a a = Eq) as -> by (by apply String_as_OT.cmp_eq).
  discriminate.
Qed.

Lemma compare_lt_asym a b :
  String.compare a b = Lt → String.compare b a = Lt → False.
Proof.
  intros Hab Hba. apply (compare_lt_irrefl a). eauto using compare_lt_trans.
Qed.

Lemma compare_not_lt a b :
  String.compare a b ≠ Lt → a = b ∨ String.compare b a = Lt.
Proof.
  intros Hnlt. destruct (String.compare a b) eqn:Hc; [|done|].
  - left. by apply String.compare_eq_iff.
  - right. rewrite String.compare_antisym, Hc. done.
Qed.

Lemma str_le_trans a b c : str_le a b → str_le b c → str_le a c.
Proof.
  intros [->|Hab] [->|Hbc]; unfold str_le; eauto using compare_lt_trans.
Qed.

Lemma str_le_antisym a b : str_le a b → str_le b a → a = b.
Proof.
  intros [->|Hab] [Heq|Hba]; try done.
  exfalso. eauto using compare_lt_asym.
Qed.

Lemma desc_le_trans a b c : desc_le a b → desc_le b c → desc_le a c.
Proof.
  destruct a, b, c; simpl; try done. apply str_le_trans.
Qed.

Lemma desc_le_antisym a b : desc_le a b → desc_le b a → a = b.
Proof.
  destruct a, b; simpl; try done. intros. f_equal. by apply str_le_antisym.
Qed.

Lemma opt_str_lt_le a b : opt_str_lt a b = true → desc_le a b.
Proof.
  destruct a, b; simpl; try done. intros. right. by apply str_lt_compare.
Qed.

Lemma opt_str_not_lt_le a b : opt_str_lt a b = false → desc_le b a.
Proof.
  destruct a as [x|], b as [y|]; simpl; try done. intros Hlt.
  destruct (compare_not_lt x y) as [->|?]; unfold str_le; auto.
  rewrite <-str_lt_compare. congruence.
Qed.

(** ** The order the sort produces *)

Lemma pair_le_trans a b c : pair_le a b → pair_le b c → pair_le a c.
Proof.
  intros [Hab|[Hab Hd]] [Hbc|[Hbc Hd']]; unfold pair_le.
  - left. eauto using compare_lt_trans.
  - left. by rewrite <-Hbc.
  - left. by rewrite Hab.
  - right. split; [congruence|]. eauto using desc_le_trans.
Qed.

Lemma pair_le_antisym a b : pair_le a b → pair_le b a → a = b.
Proof.
  destruct a as [pa da], b as [pb db]. unfold pair_le; simpl.
  intros [Hab|[Hab Hd]] [Hba|[Hba Hd']]; subst.
  - exfalso. eauto using compare_lt_asym.
  - by apply compare_lt_irrefl in Hab.
  - by apply compare_lt_irrefl in Hba.
  - f_equal. by apply desc_le_antisym.
Qed.

Lemma tuple_lt_pair_le a b :
  tuple_lt (attrgetter_prefix_description a) (attrgetter_prefix_description b)
    = true → pair_le a b.
Proof.
  unfold tuple_lt, pair_le; simpl. case_bool_decide as Heq.
  - intros. right. split; [done|]. by apply opt_str_lt_le.
  - intros. left. by apply str_lt_compare.
Qed.

Lemma tuple_not_lt_pair_le a b :
  tuple_lt (attrgetter_prefix_description a) (attrgetter_prefix_description b)
    = false → pair_le b a.
Proof.
  unfold tuple_lt, pair_le; simpl. case_bool_decide as Heq.
  - intros. right. split; [done|]. by apply opt_str_not_lt_le.
  - intros Hlt. destruct (compare_not_lt (prefix a) (prefix b)) as [?|?]; auto.
    + rewrite <-str_lt_compare. congruence.
    + done.
Qed.

Section sort_facts.
Context {A K : Type} (lt : K → K → bool) (key : A → K).

Lemma sort_insert_perm x l : sort_insert lt key x l ≡ₚ x :: l.
Proof.
  induction l as [|y l IH]; simpl; [done|].
  destruct (lt (key x) (key y)); [done|].
  rewrite IH. apply Permutation_swap.
Qed.

Lemma fold_sort_insert_perm l acc :
  fold_left (λ acc x, sort_insert lt key x acc) l acc ≡ₚ l ++ acc.
Proof.
  revert acc. induction l as [|x l IH]; intros acc; simpl; [done|].
  rewrite IH, sort_insert_perm. by rewrite Permutation_middle.
Qed.

Lemma list_sort_perm l : list_sort lt key l ≡ₚ l.
Proof.
  unfold list_sort. rewrite fold_sort_insert_perm. by rewrite app_nil_r.
Qed.

Context (R : relation A).
Hypothesis R_trans : ∀ a b c, R a b → R b c → R a c.
Hypothesis lt_R : ∀ a b, lt (key a) (key b) = true → R a b.
Hypothesis not_lt_R : ∀ a b, lt (key a) (key b) = false → R b a.

Lemma sort_insert_sorted x l :
  StronglySorted R l → StronglySorted R (sort_insert lt key x l).
Proof.
  induction 1 as [|y l Hl IH Hy]; simpl.
  - repeat constructor.
  - destruct (lt (key x) (key y)) eqn:Hlt.
    + constructor; [by constructor|].
      constructor; [by apply lt_R|].
      eapply Forall_impl; [exact Hy|]. intros z Hz.
      eapply R_trans; [by apply lt_R|done].
    + constructor; [done|].
      rewrite sort_insert_perm. constructor; [by apply not_lt_R|done].
Qed.

Lemma fold_sort_insert_sorted l acc :
  StronglySorted R acc →
  StronglySorted R (fold_left (λ acc x, sort_insert lt key x acc) l acc).
Proof.
  revert acc. induction l as [|x l IH]; intros acc Hacc; simpl; [done|].
  by apply IH, sort_insert_sorted.
Qed.

Lemma list_sort_sorted l : StronglySorted R (list_sort lt key l).
Proof. apply fold_sort_insert_sorted. constructor. Qed.
End sort_facts.

(** ** ParsePrefixes *)

Lemma ParsePrefixes_sorted ranges :
  StronglySorted pair_le (ParsePrefixes ranges).
Proof.
  unfold ParsePrefixes.
  apply list_sort_sorted;
    eauto using pair_le_trans, tuple_lt_pair_le, tuple_not_lt_pair_le.
Qed.

Lemma ParsePrefixes_perm_items r1 r2 :
  items r1 ≡ₚ items r2 → ParsePrefixes r1 = ParsePrefixes r2.
Proof.
  intros Hperm.
  apply (StronglySorted_unique_strong pair_le);
    [eauto using pair_le_antisym | apply ParsePrefixes_sorted..|].
  unfold ParsePrefixes. rewrite !list_sort_perm. by rewrite Hperm.
Qed.

Lemma same_contents_perm {V} (d1 d2 : PyDict V) :
  dict_wf d1 → dict_wf d2 → contents d1 = contents d2 → items d1 ≡ₚ items d2.
Proof. unfold dict_wf, contents. apply list_to_map_inj. Qed.

(** C3: for every ranges mapping, whatever order its items come in, the list
    ParsePrefixes returns is sorted ascending, lexicographically by the pair
    (cidr, description); it holds one record per entry of the mapping. *)
Theorem ParsePrefixes_sorted_by_cidr_description (ranges : PyDict (option string)) :
  sorted_by_cidr_description (ParsePrefixes ranges)
  ∧ ParsePrefixes ranges
      ≡ₚ (λ '(cidr, desc), mkPrefix cidr desc) <$> items ranges.
Proof.
  split.
  - apply ParsePrefixes_sorted.
  - unfold ParsePrefixes. apply list_sort_perm.
Qed.

(** C7: ParsePrefixes depends on the contents of the mapping only: two dicts
    that hold the same (cidr, description) entries, enumerated in whatever
    orders, give equal lists. *)
Theorem ParsePrefixes_deterministic (r1 r2 : PyDict (option string)) :
  dict_wf r1 → dict_wf r2 → contents r1 = contents r2 →
  ParsePrefixes r1 = ParsePrefixes r2.
Proof.
  intros Hwf1 Hwf2 Hsame.
  by apply ParsePrefixes_perm_items, same_contents_perm.
Qed.

Lemma ParsePrefixes_deterministic_witness :
  ParsePrefixes (mkDict [("10.0.0.0/8", Some ""); ("1.2.3.0/24", Some "b")])
  = ParsePrefixes (mkDict [("1.2.3.0/24", Some "b"); ("10.0.0.0/8", Some "")]).
Proof.
  apply ParsePrefixes_deterministic.
  - dict_wf_by_computation.
  - dict_wf_by_computation.
  - unfold contents; simpl. apply insert_insert_ne. discriminate.
Defined.

(** C8: for the mapping {"10.0.0.0/8": "", "1.2.3.0/24": "b"} ParsePrefixes
    returns exactly [("1.2.3.0/24","b"), ("10.0.0.0/8","")], in that order. *)
Theorem ParsePrefixes_example (ranges : PyDict (option string)) :
  dict_wf ranges →
  contents ranges
    = <["10.0.0.0/8" := Some ""]> (<["1.2.3.0/24" := Some "b"]> ∅) →
  ParsePrefixes ranges
    = [mkPrefix "1.2.3.0/24" (Some "b"); mkPrefix "10.0.0.0/8" (Some "")].
Proof.
  intros Hwf Hc.
  rewrite (ParsePrefixes_perm_items ranges
             (mkDict [("10.0.0.0/8", Some ""); ("1.2.3.0/24", Some "b")])).
  - reflexivity.
  - apply same_contents_perm; [done| |done].
    dict_wf_by_computation.
Qed.

Lemma ParsePrefixes_example_witness :
  ParsePrefixes (mkDict [("1.2.3.0/24", Some "b"); ("10.0.0.0/8", Some "")])
    = [mkPrefix "1.2.3.0/24" (Some "b"); mkPrefix "10.0.0.0/8" (Some "")].
Proof.
  apply ParsePrefixes_example.
  - dict_wf_by_computation.
  - unfold contents; simpl. apply insert_insert_ne. discriminate.
Defined.

(** ** ParseAdvertisements *)

Lemma ParseMode_Return rc m v :
  ParseMode rc m = Return v →
  has_advertise_enums rc = true
  ∧ ∃ member, mode_by_name m = Some member ∧ v = mkEnum rc member.
Proof.
  unfold ParseMode, get_enum, enum_call.
  destruct (has_advertise_enums rc); py_unfold; [|done].
  destruct (mode_by_name m); [|done]. intros [= <-]. eauto.
Qed.

Lemma AdvertiseModeValueValuesEnum_Return rc member :
  has_advertise_enums rc = true →
  AdvertiseModeValueValuesEnum rc member = Return (mkEnum rc member).
Proof.
  intros Henum. unfold AdvertiseModeValueValuesEnum, get_enum.
  by rewrite Henum.
Qed.

Lemma ParseGroups_valid rc g :
  has_advertise_enums rc = true →
  Forall (λ name, is_Some (group_by_name name)) g →
  ParseGroups rc g = Return (group_members rc g).
Proof.
  intros Henum Hvalid. unfold ParseGroups, get_enum, group_members.
  rewrite Henum.
  py_unfold. induction Hvalid as [|name g [[] Hname] _ IH]; [done|].
  simpl. rewrite IH. unfold enum_call. by rewrite Hname.
Qed.

Lemma ParsePrefixes_nil ranges : ParsePrefixes ranges = [] ↔ items ranges = [].
Proof.
  split.
  - intros Hnil. apply (fmap_nil_inv (λ '(cidr, desc), mkPrefix cidr desc)).
    apply Permutation_nil_r. rewrite <-Hnil.
    unfold ParsePrefixes. symmetry. apply list_sort_perm.
  - destruct ranges as [l]; simpl. by intros ->.
Qed.

Lemma truthy_nonempty {A} (v : option (list A)) :
  truthy v = true ↔ ∃ l, v = Some l ∧ l ≠ [].
Proof.
  destruct v as [[|x l]|]; simpl; split; try done.
  - intros (l & [= <-] & Hne). by destruct Hne.
  - intros _. by exists (x :: l).
  - by intros (l & [=] & _).
Qed.

Lemma ParseAdvertisements_parsed rc args mode' groups' :
  has_advertise_enums rc = true →
  parse_if_given (ParseMode rc) (mode args) = Return mode' →
  parse_if_given (ParseGroups rc) (groups args) = Return groups' →
  ParseAdvertisements rc args =
    if bool_decide (mode' = Some (mkEnum rc DEFAULT)) then
      if truthy groups' || truthy (ParsePrefixes <$> ranges args)
      then CustomWithDefaultError_init rc ≫= Throw
      else Return (mode', Some [], Some [])
    else Return (mode', groups', ParsePrefixes <$> ranges args).
Proof.
  intros Henum Hmode Hgroups. unfold ParseAdvertisements.
  rewrite Hmode, Hgroups. py_unfold.
  destruct mode' as [v|]; simpl.
  - rewrite AdvertiseModeValueValuesEnum_Return by done. simpl.
    unfold is_. repeat case_bool_decide; simplify_eq; done.
  - done.
Qed.

Lemma opt_groups_valid rc args :
  has_advertise_enums rc = true → group_names_valid args →
  parse_if_given (ParseGroups rc) (groups args)
    = Return (group_members rc <$> groups args).
Proof.
  intros Henum Hvalid. destruct (groups args) as [g|] eqn:Hg; [|done].
  simpl. by rewrite ParseGroups_valid by auto.
Qed.

Lemma supplies_custom_truthy rc args :
  supplies_custom args →
  truthy (group_members rc <$> groups args)
  || truthy (ParsePrefixes <$> ranges args) = true.
Proof.
  intros Hcustom. apply orb_true_iff.
  destruct Hcustom as [(g & -> & Hg)|(r & -> & Hr)]; [left|right];
    apply truthy_nonempty; simpl; eexists; split; try done.
  - by destruct g.
  - by rewrite ParsePrefixes_nil.
Qed.

Lemma CustomWithDefaultError_init_kind k :
  CustomWithDefaultError_init (kind_class k)
    = Return (CustomWithDefaultError (custom_with_default_message k)).
Proof. by destruct k. Qed.

(** C1, amended: for either resource kind, when the mode parses to DEFAULT,
    every supplied group name is the name of a member of the group enum, and
    the supplied groups list or ranges map is non-empty, ParseAdvertisements
    raises CustomWithDefaultError with the message "Cannot specify custom
    advertisements for a {resourceKind} with default mode.", the kind filled
    in.  (Without the condition on the group names the conversion of the
    groups raises first: see the counterexample below.) *)
Theorem ParseAdvertisements_custom_with_default
    (k : ResourceKind) (args : Args) (m : string) :
  mode args = Some m →
  ParseMode (kind_class k) m = Return (mkEnum (kind_class k) DEFAULT) →
  group_names_valid args →
  supplies_custom args →
  ParseAdvertisements (kind_class k) args
    = Throw (CustomWithDefaultError
               ("Cannot specify custom advertisements for a " +:+ kind_str k
                +:+ " with default mode.")).
Proof.
  intros Hm Hparse Hvalid Hcustom.
  assert (has_advertise_enums (kind_class k) = true) as Henum by (by destruct k).
  rewrite (ParseAdvertisements_parsed _ _
             (Some (mkEnum (kind_class k) DEFAULT))
             (group_members (kind_class k) <$> groups args));
    [|done| |by apply opt_groups_valid].
  - rewrite bool_decide_eq_true_2 by done.
    rewrite supplies_custom_truthy by done.
    by rewrite CustomWithDefaultError_init_kind.
  - rewrite Hm. simpl. by rewrite Hparse.
Qed.

Lemma ParseAdvertisements_custom_with_default_witness :
  ParseAdvertisements RouterBgpPeer
    (mkArgs (Some "DEFAULT") (Some ["ALL_SUBNETS"])
       (Some (mkDict [("10.0.0.0/8", Some "")])))
    = Throw (CustomWithDefaultError
               "Cannot specify custom advertisements for a peer with default mode.").
Proof.
  apply (ParseAdvertisements_custom_with_default peer _ "DEFAULT").
  - reflexivity.
  - reflexivity.
  - intros g [= <-]. repeat constructor. by exists ALL_SUBNETS.
  - left. by exists ["ALL_SUBNETS"].
Defined.

(** C1 as it is written, for every argument set with a DEFAULT mode and a
    non-empty groups list, fails: a group name that is no member of the enum
    makes the conversion at [groups = ParseGroups(...)] raise before the
    default-mode check is reached. *)
Lemma ParseAdvertisements_custom_with_default_counterexample :
  ParseAdvertisements RouterBgp
    (mkArgs (Some "DEFAULT") (Some ["ALL_ROUTES"]) None)
  = Throw (TypeError
      "No such value for ALL_ROUTES in Enum AdvertisedGroupsValueListEntryValuesEnum")
  ∧ ¬ (∀ (k : ResourceKind) (args : Args) (m : string),
         mode args = Some m →
         ParseMode (kind_class k) m = Return (mkEnum (kind_class k) DEFAULT) →
         supplies_custom args →
         ParseAdvertisements (kind_class k) args
           = Throw (CustomWithDefaultError
                      ("Cannot specify custom advertisements for a "
                       +:+ kind_str k +:+ " with default mode."))).
Proof.
  split; [reflexivity|]. intros Hclaim.
  specialize (Hclaim router
                (mkArgs (Some "DEFAULT") (Some ["ALL_ROUTES"]) None)
                "DEFAULT" eq_refl eq_refl).
  discriminate Hclaim. left. by exists ["ALL_ROUTES"].
Qed.

(** C2: when the mode parses to DEFAULT and the groups and ranges are absent
    or supplied empty, ParseAdvertisements returns (DEFAULT, [], []): the
    switch to default mode clears the custom configuration. *)
Theorem ParseAdvertisements_default_clears
    (resource_class : ResourceClass) (args : Args) (m : string) :
  mode args = Some m →
  ParseMode resource_class m = Return (mkEnum resource_class DEFAULT) →
  groups args = None ∨ groups args = Some [] →
  ranges args = None ∨ ranges args = Some (mkDict []) →
  ParseAdvertisements resource_class args
    = Return (Some (mkEnum resource_class DEFAULT), Some [], Some []).
Proof.
  intros Hm Hparse Hg Hr.
  destruct (ParseMode_Return _ _ _ Hparse) as [Henum _].
  rewrite (ParseAdvertisements_parsed _ _
             (Some (mkEnum resource_class DEFAULT))
             (group_members resource_class <$> groups args));
    [|done|rewrite Hm; simpl; by rewrite Hparse|].
  - rewrite bool_decide_eq_true_2 by done.
    by destruct Hg as [-> | ->], Hr as [-> | ->].
  - destruct Hg as [-> | ->]; [done|]. simpl.
    by rewrite ParseGroups_valid by (done || constructor).
Qed.

Lemma ParseAdvertisements_default_clears_witness :
  ParseAdvertisements RouterBgp
    (mkArgs (Some "DEFAULT") (Some []) (Some (mkDict [])))
    = Return (Some (mkEnum RouterBgp DEFAULT), Some [], Some []).
Proof.
  apply (ParseAdvertisements_default_clears _ _ "DEFAULT").
  - reflexivity.
  - reflexivity.
  - by right.
  - by right.
Defined.

Lemma returns_or_throws_bind {A B} P (c : Py A) (f : A → Py B) :
  returns_or_throws P c → (∀ a, returns_or_throws P (f a)) →
  returns_or_throws P (c ≫= f).
Proof. destruct c; simpl; [auto|done..]. Qed.

Lemma returns_or_throws_mapM {A B} P (f : A → Py B) l :
  (∀ a, returns_or_throws P (f a)) → returns_or_throws P (mapM f l).
Proof.
  intros Hf. induction l as [|a l IH]; simpl; [done|].
  apply returns_or_throws_bind; [done|]. intros b.
  apply returns_or_throws_bind; [done|]. by intros bs.
Qed.

Lemma ParseGroups_no_custom_with_default rc g :
  returns_or_throws not_custom_with_default (ParseGroups rc g).
Proof.
  unfold ParseGroups. apply returns_or_throws_bind.
  - unfold get_enum. by destruct (has_advertise_enums rc).
  - intros _. apply returns_or_throws_mapM. intros name.
    unfold enum_call. by destruct (group_by_name name).
Qed.

(** ** PromptIfSwitchToDefaultMode *)

Lemma PromptIfSwitchToDefaultMode_unfold rc existing_mode new_mode :
  has_advertise_enums rc = true →
  PromptIfSwitchToDefaultMode rc existing_mode new_mode =
    if bool_decide (existing_mode = Some (mkEnum rc CUSTOM)
                    ∧ new_mode = Some (mkEnum rc DEFAULT))
    then _GetResourceClassStr rc ≫= λ resource_str,
         PromptContinue
           (format _MODE_SWITCH_MESSAGE "{resource}" resource_str) true
         ≫= λ _, Return ()
    else Return ().
Proof.
  intros Henum. unfold PromptIfSwitchToDefaultMode.
  rewrite !AdvertiseModeValueValuesEnum_Return by done. unfold is_.
  destruct (decide (existing_mode = Some (mkEnum rc CUSTOM)
                    ∧ new_mode = Some (mkEnum rc DEFAULT))) as [Hc|Hc].
  - rewrite (bool_decide_eq_true_2 (_ ∧ _)) by done.
    destruct Hc as [-> ->]. py_unfold.
    by rewrite !bool_decide_eq_true_2.
  - rewrite (bool_decide_eq_false_2 (_ ∧ _)) by done.
    destruct existing_mode as [e|]; py_unfold; [|done].
    destruct (decide (e = mkEnum rc CUSTOM)) as [->|Hne].
    + rewrite bool_decide_eq_true_2 by done. simpl.
      destruct new_mode as [n|]; simpl; [|done].
      rewrite bool_decide_eq_false_2; [done|]. intros ->. by apply Hc.
    + by rewrite bool_decide_eq_false_2.
Qed.

Lemma PromptIfSwitchToDefaultMode_kind k existing_mode new_mode :
  PromptIfSwitchToDefaultMode (kind_class k) existing_mode new_mode =
    if bool_decide (existing_mode = Some (mkEnum (kind_class k) CUSTOM)
                    ∧ new_mode = Some (mkEnum (kind_class k) DEFAULT))
    then PromptContinue (mode_switch_warning k) true ≫= λ _, Return ()
    else Return ().
Proof.
  rewrite PromptIfSwitchToDefaultMode_unfold by (by destruct k).
  by destruct k.
Qed.

(** C4: for either resource kind and every pair of modes, present or absent,
    PromptIfSwitchToDefaultMode asks for confirmation exactly when the
    existing mode is CUSTOM and the new mode is DEFAULT, showing the warning
    that names the kind; in every other case it does nothing and returns. *)
Theorem PromptIfSwitchToDefaultMode_prompts_iff
    (k : ResourceKind) (existing_mode new_mode : option (EnumValue AdvertiseMode)) :
  (prompts (PromptIfSwitchToDefaultMode (kind_class k) existing_mode new_mode)
     = true
   ↔ existing_mode = Some (mkEnum (kind_class k) CUSTOM)
     ∧ new_mode = Some (mkEnum (kind_class k) DEFAULT))
  ∧ (prompts (PromptIfSwitchToDefaultMode (kind_class k) existing_mode new_mode)
       = true →
     ∀ user,
       (run user
          (PromptIfSwitchToDefaultMode (kind_class k) existing_mode new_mode)).1
         = [mode_switch_warning k])
  ∧ (prompts (PromptIfSwitchToDefaultMode (kind_class k) existing_mode new_mode)
       = false →
     PromptIfSwitchToDefaultMode (kind_class k) existing_mode new_mode
       = Return ()).
Proof.
  rewrite PromptIfSwitchToDefaultMode_kind.
  case_bool_decide as Hc; simpl.
  - split; [done|]. split; [|done]. intros _ user.
    by destruct (user (mode_switch_warning k)).
  - split; [|done]. split; [done|]. intros Hc'. by destruct Hc.
Qed.

(** C6: when PromptIfSwitchToDefaultMode prompts and the user declines, the
    run ends as a cancellation of the command, after the warning was shown:
    it neither returns nor raises CustomWithDefaultError or any other
    exception. *)
Theorem PromptIfSwitchToDefaultMode_decline_cancels
    (k : ResourceKind) (user : string → bool) :
  user (mode_switch_warning k) = false →
  run user (PromptIfSwitchToDefaultMode (kind_class k)
              (Some (mkEnum (kind_class k) CUSTOM))
              (Some (mkEnum (kind_class k) DEFAULT)))
    = ([mode_switch_warning k], Cancelled)
  ∧ (∀ e, (run user (PromptIfSwitchToDefaultMode (kind_class k)
                       (Some (mkEnum (kind_class k) CUSTOM))
                       (Some (mkEnum (kind_class k) DEFAULT)))).2
            ≠ Raised e).
Proof.
  intros Hno. rewrite PromptIfSwitchToDefaultMode_kind.
  rewrite bool_decide_eq_true_2 by done. simpl. rewrite Hno. simpl.
  split; [done|]. by intros e.
Qed.

Lemma PromptIfSwitchToDefaultMode_decline_cancels_witness :
  run (λ _, false)
      (PromptIfSwitchToDefaultMode RouterBgp
         (Some (mkEnum RouterBgp CUSTOM)) (Some (mkEnum RouterBgp DEFAULT)))
    = (["WARNING: switching from custom advertisement mode to default will clear out any existing advertised groups/ranges from this router."],
       Cancelled).
Proof.
  exact (proj1 (PromptIfSwitchToDefaultMode_decline_cancels
                  router (λ _, false) eq_refl)).
Defined.

(** A user who accepts lets the command go on. *)
Lemma PromptIfSwitchToDefaultMode_accept k user :
  user (mode_switch_warning k) = true →
  run user (PromptIfSwitchToDefaultMode (kind_class k)
              (Some (mkEnum (kind_class k) CUSTOM))
              (Some (mkEnum (kind_class k) DEFAULT)))
    = ([mode_switch_warning k], Returned ()).
Proof.
  intros Hyes. rewrite PromptIfSwitchToDefaultMode_kind.
  rewrite bool_decide_eq_true_2 by done. simpl. by rewrite Hyes.
Qed.

(** ** Resource classes other than the two router messages *)

Lemma append_empty_r s : s +:+ "" = s.
Proof.
  induction s as [|c s IH]; [done|].
  change (String c (s +:+ "") = String c s). by rewrite IH.
Qed.

Lemma format_invalid_resource_class s :
  format "Invalid resource_class value: {0}" "{0}" s
    = "Invalid resource_class value: " +:+ s.
Proof. cbv -[String.append]. by rewrite append_empty_r. Qed.

Lemma _GetResourceClassStr_other rc :
  rc ≠ RouterBgp → rc ≠ RouterBgpPeer →
  _GetResourceClassStr rc
    = Throw (ValueError ("Invalid resource_class value: " +:+ class_str_of rc)).
Proof.
  intros Hr Hp. unfold _GetResourceClassStr.
  rewrite !bool_decide_eq_false_2 by done.
  by rewrite format_invalid_resource_class.
Qed.

(** C9: for a resource class that is neither RouterBgp nor RouterBgpPeer,
    resolving the resource-kind string raises ValueError; so does the
    construction of CustomWithDefaultError, and PromptIfSwitchToDefaultMode
    in the prompting case fails with it instead of prompting. *)
Theorem other_resource_class_ValueError
    (resource_class : ResourceClass) :
  resource_class ≠ RouterBgp → resource_class ≠ RouterBgpPeer →
  _GetResourceClassStr resource_class
    = Throw (ValueError ("Invalid resource_class value: "
                         +:+ class_str_of resource_class))
  ∧ CustomWithDefaultError_init resource_class
    = Throw (ValueError ("Invalid resource_class value: "
                         +:+ class_str_of resource_class))
  ∧ (has_advertise_enums resource_class = true →
     PromptIfSwitchToDefaultMode resource_class
       (Some (mkEnum resource_class CUSTOM))
       (Some (mkEnum resource_class DEFAULT))
     = Throw (ValueError ("Invalid resource_class value: "
                          +:+ class_str_of resource_class)))
  ∧ (∃ e, PromptIfSwitchToDefaultMode resource_class
            (Some (mkEnum resource_class CUSTOM))
            (Some (mkEnum resource_class DEFAULT)) = Throw e).
Proof.
  intros Hr Hp.
  pose proof (_GetResourceClassStr_other _ Hr Hp) as Hstr.
  assert (has_advertise_enums resource_class = true →
          PromptIfSwitchToDefaultMode resource_class
            (Some (mkEnum resource_class CUSTOM))
            (Some (mkEnum resource_class DEFAULT))
          = Throw (ValueError ("Invalid resource_class value: "
                               +:+ class_str_of resource_class))) as Hprompt.
  { intros Henum. rewrite PromptIfSwitchToDefaultMode_unfold by done.
    rewrite bool_decide_eq_true_2 by done. by rewrite Hstr. }
  repeat split; [done| |done|].
  - unfold CustomWithDefaultError_init. by rewrite Hstr.
  - destruct (has_advertise_enums resource_class) eqn:Henum; [by eauto|].
    unfold PromptIfSwitchToDefaultMode, AdvertiseModeValueValuesEnum, get_enum.
    rewrite Henum. simpl. eauto.
Qed.

Lemma other_resource_class_ValueError_witness :
  _GetResourceClassStr (OtherClass "<class 'RouterInterface'>" true)
    = Throw (ValueError
               "Invalid resource_class value: <class 'RouterInterface'>").
Proof.
  exact (proj1 (other_resource_class_ValueError
                  (OtherClass "<class 'RouterInterface'>" true)
                  ltac:(discriminate) ltac:(discriminate))).
Defined.

(** ** The [--mode] and [--groups] flags *)

Lemma all_ascii_complete a : a ∈ all_ascii.
Proof.
  unfold all_ascii. apply list_elem_of_fmap.
  exists (nat_of_ascii a). split; [by rewrite ascii_nat_embedding|].
  apply list_elem_of_In, in_seq. pose proof (nat_ascii_bounded a). lia.
Qed.

Lemma upper_respects_casing_true : upper_respects_casing = true.
Proof. vm_compute. reflexivity. Qed.

Lemma same_char_nocase_upper a b :
  same_char_nocase a b = true → ascii_upper a = ascii_upper b.
Proof.
  intros Hsame. pose proof upper_respects_casing_true as Hall.
  unfold upper_respects_casing in Hall.
  rewrite forallb_forall in Hall.
  specialize (Hall a (proj1 (list_elem_of_In _ _) (all_ascii_complete a))).
  rewrite forallb_forall in Hall.
  specialize (Hall b (proj1 (list_elem_of_In _ _) (all_ascii_complete b))).
  rewrite Hsame in Hall. simpl in Hall. by apply bool_decide_eq_true in Hall.
Qed.

Lemma casing_of_upper s c : casing_of s c = true → upper s = upper c.
Proof.
  revert c. induction s as [|a s IH]; intros [|b c]; simpl; try done.
  intros [Hchar Hrest]%andb_true_iff.
  by rewrite (same_char_nocase_upper a b), (IH c).
Qed.

Lemma mode_choice_upper c : dict_in c _MODE_CHOICES = true → upper c = c.
Proof.
  unfold dict_in. intros Hin%bool_decide_eq_true. simpl in Hin.
  repeat (apply elem_of_cons in Hin as [->|Hin]; [done|]).
  by apply elem_of_nil in Hin.
Qed.

Lemma group_choice_upper c : dict_in c _GROUP_CHOICES = true → upper c = c.
Proof.
  unfold dict_in. intros Hin%bool_decide_eq_true. simpl in Hin.
  repeat (apply elem_of_cons in Hin as [->|Hin]; [done|]).
  by apply elem_of_nil in Hin.
Qed.

Lemma typed_choice_casing choices raw c :
  (∀ c', dict_in c' choices = true → upper c' = c') →
  dict_in c choices = true → casing_of raw c = true →
  typed_choice (λ mode, upper mode) choices raw = Return c.
Proof.
  intros Hstable Hin Hcasing. unfold typed_choice.
  rewrite (casing_of_upper _ _ Hcasing), (Hstable _ Hin). by rewrite Hin.
Qed.

(** C10: the [--mode] flag and each element of the [--groups] flag are
    uppercased before they are matched against the choices, so a choice is
    accepted in any casing and the flag yields the choice itself, which is
    the uppercased input. *)
Theorem flags_accept_any_casing
    (raw choice : string) (raws choices : list string) :
  dict_in choice _MODE_CHOICES = true →
  casing_of raw choice = true →
  Forall2 (λ r c, dict_in c _GROUP_CHOICES = true ∧ casing_of r c = true)
    raws choices →
  mode_flag raw = Return choice
  ∧ choice = upper raw
  ∧ groups_flag raws = Return choices
  ∧ choices = upper <$> raws.
Proof.
  intros Hin Hcasing Hgroups. repeat split.
  - by apply typed_choice_casing; [apply mode_choice_upper|..].
  - by rewrite (casing_of_upper _ _ Hcasing), mode_choice_upper.
  - unfold groups_flag, ArgList.
    induction Hgroups as [|r c raws choices [Hc Hr] _ IH]; [done|].
    simpl. rewrite (typed_choice_casing _ r c); [|apply group_choice_upper|done..].
    simpl. by rewrite IH.
  - induction Hgroups as [|r c raws choices [Hc Hr] _ IH]; [done|].
    rewrite fmap_cons, <-IH.
    by rewrite (casing_of_upper _ _ Hr), group_choice_upper.
Qed.

Lemma flags_accept_any_casing_witness :
  mode_flag "dEfault" = Return "DEFAULT"
  ∧ "DEFAULT" = upper "dEfault"
  ∧ groups_flag ["all_subnets"; "All_Subnets"]
    = Return ["ALL_SUBNETS"; "ALL_SUBNETS"]
  ∧ ["ALL_SUBNETS"; "ALL_SUBNETS"] = upper <$> ["all_subnets"; "All_Subnets"].
Proof.
  apply flags_accept_any_casing.
  - reflexivity.
  - reflexivity.
  - repeat constructor.
Defined.

(** The three spellings the flags are documented with. *)
Example flags_lowercase :
  mode_flag "default" = Return "DEFAULT"
  ∧ mode_flag "custom" = Return "CUSTOM"
  ∧ groups_flag ["all_subnets"] = Return ["ALL_SUBNETS"].
Proof. by vm_compute. Qed.

(** A value that is no choice in any casing is refused. *)
Example mode_flag_rejects : ∀ v, mode_flag "customs" ≠ Return v.
Proof. intros v. by vm_compute. Qed.

(** With a resource class other than the two router messages the error of
    ParseAdvertisements is the ValueError of the message lookup: this is why
    the statement on CustomWithDefaultError is about the two resource kinds. *)
Lemma ParseAdvertisements_other_class (resource_class : ResourceClass) args m :
  resource_class ≠ RouterBgp → resource_class ≠ RouterBgpPeer →
  mode args = Some m →
  ParseMode resource_class m = Return (mkEnum resource_class DEFAULT) →
  group_names_valid args → supplies_custom args →
  ParseAdvertisements resource_class args
    = Throw (ValueError ("Invalid resource_class value: "
                         +:+ class_str_of resource_class)).
Proof.
  intros Hr Hp Hm Hparse Hvalid Hcustom.
  destruct (ParseMode_Return _ _ _ Hparse) as [Henum _].
  rewrite (ParseAdvertisements_parsed _ _
             (Some (mkEnum resource_class DEFAULT))
             (group_members resource_class <$> groups args));
    [|done| |by apply opt_groups_valid].
  - rewrite bool_decide_eq_true_2 by done.
    rewrite supplies_custom_truthy by done.
    unfold CustomWithDefaultError_init.
    by rewrite _GetResourceClassStr_other.
  - rewrite Hm. simpl. by rewrite Hparse.
Qed.

(** * Further properties of the module *)

(** ** ParsePrefixes: what the list holds *)

Lemma ParsePrefixes_perm ranges :
  ParsePrefixes ranges
    ≡ₚ (λ '(cidr, desc), mkPrefix cidr desc) <$> items ranges.
Proof. unfold ParsePrefixes. apply list_sort_perm. Qed.

Lemma ParsePrefixes_pairs_perm ranges :
  attrgetter_prefix_description <$> ParsePrefixes ranges ≡ₚ items ranges.
Proof.
  rewrite ParsePrefixes_perm, <-list_fmap_compose.
  rewrite <-(list_fmap_id (items ranges)) at 2.
  erewrite list_fmap_ext; [done|]. by intros i [cidr desc] _.
Qed.

Lemma ParsePrefixes_cidrs_perm ranges :
  prefix <$> ParsePrefixes ranges ≡ₚ (items ranges).*1.
Proof.
  rewrite <-ParsePrefixes_pairs_perm, <-list_fmap_compose.
  erewrite list_fmap_ext; [done|]. by intros i [cidr desc] _.
Qed.

(** X1: The list is the mapping again: read back as (cidr, description) pairs it
    has pairwise distinct cidrs and denotes the mapping that was given, so a
    record is in the list exactly when the mapping has that entry. *)
Theorem ParsePrefixes_round_trip (ranges : PyDict (option string)) :
  dict_wf ranges →
  dict_wf (mkDict (attrgetter_prefix_description <$> ParsePrefixes ranges))
  ∧ contents (mkDict (attrgetter_prefix_description <$> ParsePrefixes ranges))
    = contents ranges
  ∧ (∀ cidr desc,
       mkPrefix cidr desc ∈ ParsePrefixes ranges
       ↔ contents ranges !! cidr = Some desc).
Proof.
  intros Hwf. unfold dict_wf, contents in *. simpl.
  assert (NoDup (attrgetter_prefix_description <$> ParsePrefixes ranges).*1)
    as Hwf' by (by rewrite ParsePrefixes_pairs_perm).
  split; [done|]. split.
  - apply list_to_map_proper; [done|]. apply ParsePrefixes_pairs_perm.
  - intros cidr desc. rewrite <-elem_of_list_to_map by done.
    rewrite ParsePrefixes_perm, list_elem_of_fmap. split.
    + by intros ([c d] & [= -> ->] & Hin).
    + intros Hin. by exists (cidr, desc).
Qed.

Lemma ParsePrefixes_round_trip_witness :
  contents (mkDict (attrgetter_prefix_description <$>
              ParsePrefixes (mkDict [("10.0.0.0/8", None);
                                     ("1.2.3.0/24", Some "b")])))
    = contents (mkDict [("10.0.0.0/8", None); ("1.2.3.0/24", Some "b")]).
Proof.
  refine (proj1 (proj2 (ParsePrefixes_round_trip _ _))).
  dict_wf_by_computation.
Defined.

(** The list has as many records as the mapping has entries; it is empty
    exactly for the empty mapping. *)
Lemma ParsePrefixes_length (ranges : PyDict (option string)) :
  length (ParsePrefixes ranges) = length (items ranges)
  ∧ (ParsePrefixes ranges = [] ↔ items ranges = []).
Proof.
  split; [|apply ParsePrefixes_nil].
  by rewrite ParsePrefixes_perm, length_fmap.
Qed.

Lemma sorted_distinct_strict (l : list RouterAdvertisedPrefix) :
  StronglySorted pair_le l → NoDup (prefix <$> l) →
  strictly_ascending_by_cidr l.
Proof.
  unfold strictly_ascending_by_cidr.
  induction 1 as [|a l Hl IH Ha]; csimpl; [constructor|].
  intros [Hnotin Hnodup]%NoDup_cons. constructor; [by apply IH|].
  apply Forall_forall. intros b Hb.
  rewrite Forall_forall in Ha. destruct (Ha b Hb) as [Hlt|[Heq _]]; [done|].
  destruct Hnotin. rewrite Heq. apply list_elem_of_fmap. by exists b.
Qed.

Lemma ParsePrefixes_cidrs_NoDup ranges :
  dict_wf ranges → NoDup (prefix <$> ParsePrefixes ranges).
Proof. intros Hwf. by rewrite ParsePrefixes_cidrs_perm. Qed.

Lemma ParsePrefixes_strict ranges :
  dict_wf ranges → strictly_ascending_by_cidr (ParsePrefixes ranges).
Proof.
  intros Hwf. apply sorted_distinct_strict;
    [apply ParsePrefixes_sorted|by apply ParsePrefixes_cidrs_NoDup].
Qed.

(** X2: For a dict (pairwise distinct keys) the list is strictly ascending by
    cidr: no two records share a cidr, and the description never has to
    decide the place of a record. *)
Theorem ParsePrefixes_strictly_ascending (ranges : PyDict (option string)) :
  dict_wf ranges →
  strictly_ascending_by_cidr (ParsePrefixes ranges)
  ∧ NoDup (prefix <$> ParsePrefixes ranges).
Proof.
  intros Hwf. split;
    [by apply ParsePrefixes_strict|by apply ParsePrefixes_cidrs_NoDup].
Qed.

Lemma ParsePrefixes_strictly_ascending_witness :
  strictly_ascending_by_cidr
    (ParsePrefixes (mkDict [("10.0.0.0/8", None); ("1.2.3.0/24", Some "b");
                            ("1.2.3.0/25", Some "a")])).
Proof.
  refine (proj1 (ParsePrefixes_strictly_ascending _ _)).
  dict_wf_by_computation.
Defined.

(** X3: The order of the list is the order of the cidrs alone: two dicts with
    the same cidrs, whatever their descriptions, give the same sequence of
    cidrs. *)
Theorem ParsePrefixes_order_ignores_descriptions
    (r1 r2 : PyDict (option string)) :
  dict_wf r1 → dict_wf r2 →
  dom (contents r1) = dom (contents r2) →
  prefix <$> ParsePrefixes r1 = prefix <$> ParsePrefixes r2.
Proof.
  intros Hwf1 Hwf2 Hdom.
  apply (StronglySorted_unique_strong (λ a b, String.compare a b = Lt)).
  - intros a b _ _ Hab Hba. exfalso. eauto using compare_lt_asym.
  - apply (StronglySorted_fmap prefix
             (λ a b, String.compare (prefix a) (prefix b) = Lt)); [done|].
    by apply ParsePrefixes_strict.
  - apply (StronglySorted_fmap prefix
             (λ a b, String.compare (prefix a) (prefix b) = Lt)); [done|].
    by apply ParsePrefixes_strict.
  - rewrite !ParsePrefixes_cidrs_perm.
    apply NoDup_Permutation; [done..|]. intros cidr.
    unfold contents in Hdom. rewrite !dom_list_to_map_L in Hdom.
    by rewrite <-!(elem_of_list_to_set (C:=gset string)), Hdom.
Qed.

Lemma ParsePrefixes_order_ignores_descriptions_witness :
  prefix <$> ParsePrefixes (mkDict [("10.0.0.0/8", Some "z");
                                    ("1.2.3.0/24", None)])
  = prefix <$> ParsePrefixes (mkDict [("1.2.3.0/24", Some "b");
                                      ("10.0.0.0/8", Some "a")]).
Proof.
  apply ParsePrefixes_order_ignores_descriptions.
  - dict_wf_by_computation.
  - dict_wf_by_computation.
  - unfold contents; simpl. rewrite !dom_insert_L. set_solver.
Defined.

(** ** ParseAdvertisements: outcomes *)

Lemma returns_or_throws_weaken {A} (P Q : PyExc → Prop) (c : Py A) :
  (∀ e, P e → Q e) → returns_or_throws P c → returns_or_throws Q c.
Proof. intros HPQ. destruct c; simpl; auto. Qed.

Lemma ParseMode_no_custom_with_default rc m :
  returns_or_throws not_custom_with_default (ParseMode rc m).
Proof.
  unfold ParseMode. apply returns_or_throws_bind.
  - unfold get_enum. by destruct (has_advertise_enums rc).
  - intros _. unfold enum_call. by destruct (mode_by_name m).
Qed.

Lemma parse_if_given_returns_or_throws {A B} P (parse : A → Py B) arg :
  (∀ a, returns_or_throws P (parse a)) →
  returns_or_throws P (parse_if_given parse arg).
Proof.
  intros Hparse. destruct arg as [a|]; simpl; [|done].
  by apply returns_or_throws_bind.
Qed.

Lemma parse_if_given_Return {A B} (parse : A → Py B) arg r :
  parse_if_given parse arg = Return r →
  (arg = None ∧ r = None)
  ∨ (∃ a b, arg = Some a ∧ parse a = Return b ∧ r = Some b).
Proof.
  destruct arg as [a|]; simpl.
  - py_unfold. destruct (parse a) as [b| | |] eqn:Hp; simpl; try done.
    intros [= <-]. right. by exists a, b.
  - intros [= <-]. by left.
Qed.

Lemma parse_if_given_Throw {A B} (parse : A → Py B) arg e :
  parse_if_given parse arg = Throw e →
  ∃ a, arg = Some a ∧ parse a = Throw e.
Proof.
  destruct arg as [a|]; simpl; [|done].
  py_unfold. destruct (parse a) as [b|e'| |] eqn:Hp; simpl; try done.
  intros [= <-]. by exists a.
Qed.

Lemma mapM_Return_Forall2 {A B} (f : A → Py B) l l' :
  mapM f l = Return l' → Forall2 (λ a b, f a = Return b) l l'.
Proof.
  revert l'. induction l as [|a l IH]; intros l'; simpl.
  - intros [= <-]. constructor.
  - py_unfold. destruct (f a) as [b| | |] eqn:Hfa; simpl; try done.
    destruct (mapM f l) as [bs| | |] eqn:Hl; simpl; try done.
    intros [= <-]. constructor; [done|]. by apply IH.
Qed.

Lemma ParseGroups_Return rc g gs :
  ParseGroups rc g = Return gs →
  has_advertise_enums rc = true
  ∧ Forall (λ name, is_Some (group_by_name name)) g
  ∧ gs = group_members rc g.
Proof.
  unfold ParseGroups, get_enum.
  destruct (has_advertise_enums rc); py_unfold; [|done].
  intros Hall%mapM_Return_Forall2. split; [done|].
  unfold group_members.
  induction Hall as [|name v g gs Hname _ [IH1 IH2]]; [by split|].
  unfold enum_call in Hname.
  destruct (group_by_name name) as [[]|] eqn:Hg; [|done].
  injection Hname as <-. split; [by constructor|]. csimpl. by rewrite IH2.
Qed.

Lemma ParseAdvertisements_converted rc args mode' groups' :
  parse_if_given (ParseMode rc) (mode args) = Return mode' →
  parse_if_given (ParseGroups rc) (groups args) = Return groups' →
  ParseAdvertisements rc args =
    if bool_decide (mode' = Some (mkEnum rc DEFAULT)) then
      if truthy groups' || truthy (ParsePrefixes <$> ranges args)
      then CustomWithDefaultError_init rc ≫= Throw
      else Return (mode', Some [], Some [])
    else Return (mode', groups', ParsePrefixes <$> ranges args).
Proof.
  intros Hmode Hgroups.
  destruct (parse_if_given_Return _ _ _ Hmode)
    as [[Hnone ->]|(m & v & Hm & Hparse & ->)].
  - unfold ParseAdvertisements. by rewrite Hmode, Hgroups.
  - destruct (ParseMode_Return _ _ _ Hparse) as [Henum _].
    by apply ParseAdvertisements_parsed.
Qed.

Lemma ParseAdvertisements_mode_Throw rc args e :
  parse_if_given (ParseMode rc) (mode args) = Throw e →
  ParseAdvertisements rc args = Throw e.
Proof. intros Hmode. unfold ParseAdvertisements. by rewrite Hmode. Qed.

Lemma ParseAdvertisements_groups_Throw rc args mode' e :
  parse_if_given (ParseMode rc) (mode args) = Return mode' →
  parse_if_given (ParseGroups rc) (groups args) = Throw e →
  ParseAdvertisements rc args = Throw e.
Proof.
  intros Hmode Hgroups. unfold ParseAdvertisements.
  by rewrite Hmode, Hgroups.
Qed.

(** The three ways ParseAdvertisements can go. *)
Lemma ParseAdvertisements_cases rc args :
  (∃ e, not_custom_with_default e
        ∧ parse_if_given (ParseMode rc) (mode args) = Throw e
        ∧ ParseAdvertisements rc args = Throw e)
  ∨ (∃ mode' e, not_custom_with_default e
        ∧ parse_if_given (ParseMode rc) (mode args) = Return mode'
        ∧ parse_if_given (ParseGroups rc) (groups args) = Throw e
        ∧ ParseAdvertisements rc args = Throw e)
  ∨ (∃ mode' groups',
        parse_if_given (ParseMode rc) (mode args) = Return mode'
        ∧ parse_if_given (ParseGroups rc) (groups args) = Return groups').
Proof.
  pose proof (parse_if_given_returns_or_throws _ _ (mode args)
                (ParseMode_no_custom_with_default rc)) as Hm.
  pose proof (parse_if_given_returns_or_throws _ _ (groups args)
                (ParseGroups_no_custom_with_default rc)) as Hg.
  destruct (parse_if_given (ParseMode rc) (mode args))
    as [mode'|e| |] eqn:Hmode; simpl in Hm; try done.
  - destruct (parse_if_given (ParseGroups rc) (groups args))
      as [groups'|e| |] eqn:Hgroups; simpl in Hg; try done.
    + right. right. by exists mode', groups'.
    + right. left. exists mode', e.
      eauto using ParseAdvertisements_groups_Throw.
  - left. exists e. eauto using ParseAdvertisements_mode_Throw.
Qed.

Lemma CustomWithDefaultError_init_cases rc :
  (∃ k, rc = kind_class k
        ∧ CustomWithDefaultError_init rc
          = Return (CustomWithDefaultError (custom_with_default_message k)))
  ∨ (rc ≠ RouterBgp ∧ rc ≠ RouterBgpPeer
     ∧ CustomWithDefaultError_init rc
       = Throw (ValueError ("Invalid resource_class value: "
                            +:+ class_str_of rc))).
Proof.
  destruct (decide (rc = RouterBgp)) as [->|Hr]; [left; by exists router|].
  destruct (decide (rc = RouterBgpPeer)) as [->|Hp]; [left; by exists peer|].
  right. repeat split; [done..|].
  unfold CustomWithDefaultError_init. by rewrite _GetResourceClassStr_other.
Qed.

(** ParseAdvertisements only converts and checks: whatever the resource
    class and the arguments, it returns or raises, and never asks the user
    anything nor cancels the command. *)
Lemma ParseAdvertisements_never_interacts
    (resource_class : ResourceClass) (args : Args) :
  never_interacts (ParseAdvertisements resource_class args).
Proof.
  destruct (ParseAdvertisements_cases resource_class args)
    as [(e & He & _ & ->)|[(mode' & e & He & _ & _ & ->)
                          |(mode' & groups' & Hmode & Hgroups)]];
    [done..|].
  rewrite (ParseAdvertisements_converted _ _ _ _ Hmode Hgroups).
  case_bool_decide; [|done].
  destruct (truthy groups' || truthy (ParsePrefixes <$> ranges args));
    [|done].
  by destruct (CustomWithDefaultError_init_cases resource_class)
    as [(k & _ & ->)|(_ & _ & ->)].
Qed.

Lemma truthy_parsed_groups rc args groups' :
  parse_if_given (ParseGroups rc) (groups args) = Return groups' →
  truthy groups' = true → ∃ g, groups args = Some g ∧ g ≠ [].
Proof.
  intros Hgroups (l & -> & Hl)%truthy_nonempty.
  destruct (parse_if_given_Return _ _ _ Hgroups)
    as [[_ [=]]|(g & gs & Hg & Hparse & [= <-])].
  exists g. split; [done|]. intros ->.
  apply ParseGroups_Return in Hparse as (_ & _ & ->). by destruct Hl.
Qed.

Lemma truthy_parsed_ranges args :
  truthy (ParsePrefixes <$> ranges args) = true →
  ∃ r, ranges args = Some r ∧ items r ≠ [].
Proof.
  intros (l & Hl & Hne)%truthy_nonempty.
  destruct (ranges args) as [r|]; [|done]. injection Hl as <-.
  exists r. split; [done|]. by rewrite <-ParsePrefixes_nil.
Qed.

(** X4: CustomWithDefaultError is raised in one situation only: the resource
    class is one of the two router messages, the mode parses to DEFAULT, and
    a non-empty groups list or ranges dict was supplied; the message is the
    one of that resource kind. *)
Theorem CustomWithDefaultError_only_with_default
    (resource_class : ResourceClass) (args : Args) (msg : string) :
  ParseAdvertisements resource_class args = Throw (CustomWithDefaultError msg) →
  ∃ k m,
    resource_class = kind_class k
    ∧ mode args = Some m
    ∧ ParseMode resource_class m = Return (mkEnum resource_class DEFAULT)
    ∧ supplies_custom args
    ∧ msg = custom_with_default_message k.
Proof.
  intros Hthrow.
  destruct (ParseAdvertisements_cases resource_class args)
    as [(e & He & _ & Heq)|[(mode' & e & He & _ & _ & Heq)
                           |(mode' & groups' & Hmode & Hgroups)]].
  - rewrite Heq in Hthrow. injection Hthrow as ->. done.
  - rewrite Heq in Hthrow. injection Hthrow as ->. done.
  - rewrite (ParseAdvertisements_converted _ _ _ _ Hmode Hgroups) in Hthrow.
    case_bool_decide as Hdefault; [|done]. subst mode'.
    destruct (truthy groups' || truthy (ParsePrefixes <$> ranges args))
      eqn:Htruthy; [|done].
    destruct (CustomWithDefaultError_init_cases resource_class)
      as [(k & Hk & Hinit)|(_ & _ & Hinit)];
      rewrite Hinit in Hthrow; [|done].
    injection Hthrow as <-.
    destruct (parse_if_given_Return _ _ _ Hmode)
      as [[_ [=]]|(m & v & Hm & Hparse & [= <-])].
    exists k, m. repeat split; try done.
    apply orb_true_iff in Htruthy as [Hg|Hr].
    + left. eauto using truthy_parsed_groups.
    + right. by apply truthy_parsed_ranges.
Qed.

Lemma CustomWithDefaultError_only_with_default_witness :
  ∃ k m,
    RouterBgpPeer = kind_class k
    ∧ mode (mkArgs (Some "DEFAULT") None
              (Some (mkDict [("10.0.0.0/8", None)]))) = Some m
    ∧ ParseMode RouterBgpPeer m = Return (mkEnum RouterBgpPeer DEFAULT)
    ∧ supplies_custom (mkArgs (Some "DEFAULT") None
                         (Some (mkDict [("10.0.0.0/8", None)])))
    ∧ "Cannot specify custom advertisements for a peer with default mode."
      = custom_with_default_message k.
Proof.
  apply (CustomWithDefaultError_only_with_default RouterBgpPeer).
  reflexivity.
Defined.

(** X5: What a returned triple looks like: the mode is absent exactly when the
    flag was; a returned mode belongs to the enum of the resource class; a
    returned DEFAULT mode comes with the empty groups and prefixes lists and
    nothing else; returned prefixes are sorted by (cidr, description). *)
Theorem ParseAdvertisements_returned
    (resource_class : ResourceClass) (args : Args)
    (mode' : option (EnumValue AdvertiseMode))
    (groups' : option (list (EnumValue AdvertisedGroup)))
    (prefixes' : option (list RouterAdvertisedPrefix)) :
  ParseAdvertisements resource_class args = Return (mode', groups', prefixes') →
  (mode' = None ↔ mode args = None)
  ∧ (∀ v, mode' = Some v → enum_class v = resource_class)
  ∧ (∀ v, mode' = Some v → enum_member v = DEFAULT →
          groups' = Some [] ∧ prefixes' = Some [])
  ∧ (∀ p, prefixes' = Some p → sorted_by_cidr_description p).
Proof.
  intros Hret.
  destruct (ParseAdvertisements_cases resource_class args)
    as [(e & _ & _ & Heq)|[(m' & e & _ & _ & _ & Heq)
                          |(m' & g' & Hmode & Hgroups)]];
    [by rewrite Heq in Hret..|].
  rewrite (ParseAdvertisements_converted _ _ _ _ Hmode Hgroups) in Hret.
  assert (m' = mode') as ->.
  { case_bool_decide; [|by injection Hret].
    destruct (truthy g' || truthy (ParsePrefixes <$> ranges args)).
    - by destruct (CustomWithDefaultError_init_cases resource_class)
        as [(k & _ & Hinit)|(_ & _ & Hinit)]; rewrite Hinit in Hret.
    - by injection Hret. }
  assert (∀ v, mode' = Some v → v = mkEnum resource_class (enum_member v))
    as Hclass.
  { intros v ->.
    destruct (parse_if_given_Return _ _ _ Hmode)
      as [[_ [=]]|(m & b & _ & Hparse & [= <-])].
    by apply ParseMode_Return in Hparse as (_ & member & _ & ->). }
  split; [|split; [|split]].
  - destruct (parse_if_given_Return _ _ _ Hmode)
      as [[Hnone ->]|(m & b & Hm & _ & ->)]; [done|].
    rewrite Hm. by split.
  - intros v Hv. by rewrite (Hclass v Hv).
  - intros v Hv Hmember. case_bool_decide as Hdefault.
    + destruct (truthy g' || truthy (ParsePrefixes <$> ranges args)).
      * by destruct (CustomWithDefaultError_init_cases resource_class)
          as [(k & _ & Hinit)|(_ & _ & Hinit)]; rewrite Hinit in Hret.
      * by injection Hret as <- <-.
    + destruct Hdefault. by rewrite Hv, (Hclass v Hv), Hmember.
  - intros p ->. case_bool_decide.
    + destruct (truthy g' || truthy (ParsePrefixes <$> ranges args)).
      * by destruct (CustomWithDefaultError_init_cases resource_class)
          as [(k & _ & Hinit)|(_ & _ & Hinit)]; rewrite Hinit in Hret.
      * injection Hret as _ <-. constructor.
    + injection Hret as _ Hp. destruct (ranges args) as [r|]; [|done].
      injection Hp as <-. apply ParsePrefixes_sorted.
Qed.

Lemma ParseAdvertisements_returned_witness :
  sorted_by_cidr_description
    [mkPrefix "1.2.3.0/24" None; mkPrefix "10.0.0.0/8" (Some "a")].
Proof.
  pose proof (ParseAdvertisements_returned RouterBgp
                (mkArgs (Some "CUSTOM") None
                   (Some (mkDict [("10.0.0.0/8", Some "a");
                                  ("1.2.3.0/24", None)])))
                _ _ _ eq_refl) as (_ & _ & _ & Hsorted).
  exact (Hsorted _ eq_refl).
Defined.

(** X6: The conversions come first, in the order mode, groups: a mode that does
    not convert raises its error whatever else was given, and with a mode
    that converts (or none) a group that does not convert raises its error,
    also in default mode, where the check would have raised
    CustomWithDefaultError. *)
Theorem ParseAdvertisements_conversion_errors_first
    (resource_class : ResourceClass) (args : Args) (e : PyExc) :
  (∃ m, mode args = Some m ∧ ParseMode resource_class m = Throw e)
  ∨ ((mode args = None
      ∨ ∃ m v, mode args = Some m ∧ ParseMode resource_class m = Return v)
     ∧ ∃ g, groups args = Some g ∧ ParseGroups resource_class g = Throw e) →
  ParseAdvertisements resource_class args = Throw e.
Proof.
  intros [(m & Hm & Hparse)|[Hmode (g & Hg & Hparse)]].
  - apply ParseAdvertisements_mode_Throw. rewrite Hm. simpl.
    by rewrite Hparse.
  - assert (∃ mode', parse_if_given (ParseMode resource_class) (mode args)
                     = Return mode') as [mode' Hmode'].
    { destruct Hmode as [->|(m & v & -> & Hv)]; simpl; [by eexists|].
      rewrite Hv. by eexists. }
    apply (ParseAdvertisements_groups_Throw _ _ mode'); [done|].
    rewrite Hg. simpl. by rewrite Hparse.
Qed.

Lemma ParseAdvertisements_conversion_errors_first_witness :
  ParseAdvertisements RouterBgp
    (mkArgs (Some "DEFAULT") (Some ["ALL_SUBNETS"; "ALL_ROUTES"]) None)
  = Throw (TypeError
      "No such value for ALL_ROUTES in Enum AdvertisedGroupsValueListEntryValuesEnum").
Proof.
  apply ParseAdvertisements_conversion_errors_first.
  right. split.
  - right. by exists "DEFAULT", (mkEnum RouterBgp DEFAULT).
  - by exists ["ALL_SUBNETS"; "ALL_ROUTES"].
Defined.

(** ** The flags and the conversions *)

Lemma typed_choice_Return type choices raw v :
  typed_choice type choices raw = Return v →
  v = type raw ∧ dict_in v choices = true.
Proof.
  unfold typed_choice. destruct (dict_in (type raw) choices) eqn:Hin; [|done].
  by intros [= <-].
Qed.

Lemma mode_choice_names c :
  dict_in c _MODE_CHOICES = true → c = "DEFAULT" ∨ c = "CUSTOM".
Proof.
  unfold dict_in. intros Hin%bool_decide_eq_true. simpl in Hin.
  apply elem_of_cons in Hin as [->|Hin]; [by left|].
  apply elem_of_cons in Hin as [->|Hin]; [by right|].
  by apply elem_of_nil in Hin.
Qed.

Lemma group_choice_names c : dict_in c _GROUP_CHOICES = true → c = "ALL_SUBNETS".
Proof.
  unfold dict_in. intros Hin%bool_decide_eq_true. simpl in Hin.
  apply elem_of_cons in Hin as [->|Hin]; [done|].
  by apply elem_of_nil in Hin.
Qed.

Lemma groups_flag_Forall2 raws vs :
  groups_flag raws = Return vs →
  Forall2 (λ r c, c = upper r ∧ dict_in c _GROUP_CHOICES = true) raws vs.
Proof.
  intros Hall%mapM_Return_Forall2.
  eapply Forall2_impl; [exact Hall|]. intros r c. apply typed_choice_Return.
Qed.

Lemma from_flags_mode k args :
  from_flags args →
  ∃ mode', parse_if_given (ParseMode (kind_class k)) (mode args) = Return mode'.
Proof.
  intros [Hmode _]. destruct (mode args) as [m|]; [|by eexists].
  destruct (Hmode m eq_refl) as [raw Hraw].
  apply typed_choice_Return in Hraw as [_ Hin].
  destruct (mode_choice_names _ Hin) as [-> | ->], k; by eexists.
Qed.

Lemma from_flags_groups args : from_flags args → group_names_valid args.
Proof.
  intros [_ Hgroups] g Hg. destruct (Hgroups g Hg) as [raws Hraws].
  apply groups_flag_Forall2 in Hraws. clear Hg Hgroups.
  induction Hraws as [|r c raws g' [_ Hin] _ IH]; [constructor|].
  constructor; [|done].
  rewrite (group_choice_names _ Hin). by exists ALL_SUBNETS.
Qed.

(** X7: The choices of the flags are the names of the enum members: with
    arguments that came through [--mode] and [--groups], no conversion fails
    for a router or a peer, and ParseAdvertisements returns or raises the
    CustomWithDefaultError of that kind, nothing else. *)
Theorem ParseAdvertisements_from_flags (k : ResourceKind) (args : Args) :
  from_flags args →
  returns_or_throws
    (λ e, e = CustomWithDefaultError (custom_with_default_message k))
    (ParseAdvertisements (kind_class k) args).
Proof.
  intros Hflags.
  destruct (from_flags_mode k args Hflags) as [mode' Hmode].
  assert (has_advertise_enums (kind_class k) = true) as Henum by (by destruct k).
  rewrite (ParseAdvertisements_converted _ _ mode'
             (group_members (kind_class k) <$> groups args));
    [|done|by apply opt_groups_valid, from_flags_groups].
  case_bool_decide; [|done].
  destruct (truthy _ || truthy _); [|done].
  by rewrite CustomWithDefaultError_init_kind.
Qed.

Lemma ParseAdvertisements_from_flags_witness :
  returns_or_throws
    (λ e, e = CustomWithDefaultError (custom_with_default_message router))
    (ParseAdvertisements RouterBgp
       (mkArgs (Some "DEFAULT") (Some ["ALL_SUBNETS"]) None)).
Proof.
  apply (ParseAdvertisements_from_flags router). split.
  - intros m [= <-]. by exists "default".
  - intros g [= <-]. by exists ["All_Subnets"].
Defined.




(** ** PromptIfSwitchToDefaultMode: outcomes *)

(** X9: For a router or a peer the function never raises and asks at most once:
    the run shows nothing and returns, or shows the warning once and then
    returns or is cancelled; it is cancelled exactly when the switch is from
    CUSTOM to DEFAULT and the user declines. *)
Theorem PromptIfSwitchToDefaultMode_outcomes
    (k : ResourceKind) (existing_mode new_mode : option (EnumValue AdvertiseMode))
    (user : string → bool) :
  (run user (PromptIfSwitchToDefaultMode (kind_class k) existing_mode new_mode)
     = ([], Returned ())
   ∨ run user (PromptIfSwitchToDefaultMode (kind_class k) existing_mode new_mode)
     = ([mode_switch_warning k], Returned ())
   ∨ run user (PromptIfSwitchToDefaultMode (kind_class k) existing_mode new_mode)
     = ([mode_switch_warning k], Cancelled))
  ∧ ((run user
        (PromptIfSwitchToDefaultMode (kind_class k) existing_mode new_mode)).2
       = Cancelled
     ↔ existing_mode = Some (mkEnum (kind_class k) CUSTOM)
       ∧ new_mode = Some (mkEnum (kind_class k) DEFAULT)
       ∧ user (mode_switch_warning k) = false).
Proof.
  rewrite PromptIfSwitchToDefaultMode_kind.
  case_bool_decide as Hc; simpl.
  - destruct Hc as [-> ->].
    destruct (user (mode_switch_warning k)) eqn:Huser; simpl.
    + split; [by right; left|]. split; [done|]. by intros (_ & _ & [=]).
    + split; [by right; right|]. by split.
  - split; [by left|]. split; [done|]. intros (? & ? & _). by destruct Hc.
Qed.

(** X10: Whatever the resource class, also one on which the lookups would fail,
    nothing happens without an existing mode.  For a class that carries the
    enums nothing happens either when the new mode is absent or when one of
    the two modes is not the member in question: a member of another class's
    enum, an existing DEFAULT, a new CUSTOM. *)
Theorem PromptIfSwitchToDefaultMode_noop
    (resource_class : ResourceClass)
    (existing_mode new_mode : option (EnumValue AdvertiseMode)) :
  existing_mode = None
  ∨ (has_advertise_enums resource_class = true
     ∧ (new_mode = None
        ∨ (∃ e, existing_mode = Some e
                ∧ (enum_class e ≠ resource_class ∨ enum_member e = DEFAULT))
        ∨ (∃ n, new_mode = Some n
                ∧ (enum_class n ≠ resource_class ∨ enum_member n = CUSTOM)))) →
  PromptIfSwitchToDefaultMode resource_class existing_mode new_mode = Return ().
Proof.
  intros [->|[Henum Hother]]; [done|].
  rewrite PromptIfSwitchToDefaultMode_unfold by done.
  rewrite bool_decide_eq_false_2; [done|]. intros [He Hn].
  destruct Hother as [->|[(e & -> & Hne)|(n & -> & Hnn)]]; [done| |].
  - injection He as ->. simpl in Hne. by destruct Hne.
  - injection Hn as ->. simpl in Hnn. by destruct Hnn.
Qed.

Lemma PromptIfSwitchToDefaultMode_noop_witness :
  PromptIfSwitchToDefaultMode RouterBgpPeer
    (Some (mkEnum RouterBgp CUSTOM)) (Some (mkEnum RouterBgpPeer DEFAULT))
  = Return ().
Proof.
  apply PromptIfSwitchToDefaultMode_noop. right. split; [reflexivity|].
  right. left. exists (mkEnum RouterBgp CUSTOM). split; [reflexivity|].
  left. discriminate.
Defined.

(** ** ParseAdvertisements, then PromptIfSwitchToDefaultMode *)

(** X11: The warning keeps its word.  When the mode that ParseAdvertisements
    returned makes PromptIfSwitchToDefaultMode ask, the existing mode is
    CUSTOM, the [--mode] flag named DEFAULT, and the groups and prefixes that
    were returned with the mode are the empty lists that clear the custom
    advertisements. *)
Theorem prompt_after_ParseAdvertisements
    (k : ResourceKind) (args : Args)
    (existing_mode mode' : option (EnumValue AdvertiseMode))
    (groups' : option (list (EnumValue AdvertisedGroup)))
    (prefixes' : option (list RouterAdvertisedPrefix)) :
  ParseAdvertisements (kind_class k) args = Return (mode', groups', prefixes') →
  prompts (PromptIfSwitchToDefaultMode (kind_class k) existing_mode mode')
    = true →
  existing_mode = Some (mkEnum (kind_class k) CUSTOM)
  ∧ (∃ m, mode args = Some m ∧ mode_by_name m = Some DEFAULT)
  ∧ groups' = Some [] ∧ prefixes' = Some [].
Proof.
  intros Hret Hprompts.
  rewrite PromptIfSwitchToDefaultMode_kind in Hprompts.
  case_bool_decide as Hc; [|done]. destruct Hc as [-> ->].
  split; [done|].
  destruct (ParseAdvertisements_cases (kind_class k) args)
    as [(e & _ & _ & Heq)|[(m' & e & _ & _ & _ & Heq)
                          |(m' & g' & Hmode & Hgroups)]];
    [by rewrite Heq in Hret..|].
  rewrite (ParseAdvertisements_converted _ _ _ _ Hmode Hgroups) in Hret.
  case_bool_decide as Hdefault.
  - subst m'.
    destruct (truthy g' || truthy (ParsePrefixes <$> ranges args)).
    { by rewrite CustomWithDefaultError_init_kind in Hret. }
    injection Hret as <- <-. split; [|done].
    destruct (parse_if_given_Return _ _ _ Hmode)
      as [[_ [=]]|(m & v & Hm & Hparse & [= <-])].
    exists m. split; [done|].
    by apply ParseMode_Return in Hparse as (_ & member & Hname & [= <-]).
  - injection Hret as -> _ _. by destruct Hdefault.
Qed.

Lemma prompt_after_ParseAdvertisements_witness :
  Some (mkEnum RouterBgp CUSTOM) = Some (mkEnum (kind_class router) CUSTOM)
  ∧ (∃ m, mode (mkArgs (Some "DEFAULT") None None) = Some m
          ∧ mode_by_name m = Some DEFAULT)
  ∧ Some [] = Some (@nil (EnumValue AdvertisedGroup))
  ∧ Some [] = Some (@nil RouterAdvertisedPrefix).
Proof.
  apply (prompt_after_ParseAdvertisements router
           (mkArgs (Some "DEFAULT") None None)
           (Some (mkEnum RouterBgp CUSTOM)) (Some (mkEnum RouterBgp DEFAULT))).
  - reflexivity.
  - reflexivity.
Defined.

(** ** More on the conversions *)

(** X12: ParseGroups converts all names or none: it returns exactly when the
    class carries the group enum and every name is a member name, and then
    the list has one member per name, in the order of the names; a single
    name that is no member makes the whole conversion raise. *)
Theorem ParseGroups_all_or_nothing
    (resource_class : ResourceClass) (groups : list string) :
  (∀ gs, ParseGroups resource_class groups = Return gs
         ↔ has_advertise_enums resource_class = true
           ∧ Forall (λ name, is_Some (group_by_name name)) groups
           ∧ gs = group_members resource_class groups)
  ∧ (∀ gs, ParseGroups resource_class groups = Return gs →
           length gs = length groups)
  ∧ (∀ name, name ∈ groups → group_by_name name = None →
             ∃ e, ParseGroups resource_class groups = Throw e).
Proof.
  split; [|split].
  - intros gs. split; [apply ParseGroups_Return|].
    intros (Henum & Hvalid & ->). by apply ParseGroups_valid.
  - intros gs (_ & _ & ->)%ParseGroups_Return.
    unfold group_members. by rewrite length_fmap.
  - intros name Hin Hname.
    pose proof (ParseGroups_no_custom_with_default resource_class groups) as Hr.
    destruct (ParseGroups resource_class groups) as [gs|e| |] eqn:Hparse;
      simpl in Hr; try done; [|by exists e].
    apply ParseGroups_Return in Hparse as (_ & Hvalid & _).
    rewrite Forall_forall in Hvalid. destruct (Hvalid name Hin) as [member Hm].
    congruence.
Qed.

(** X13: ParseAdvertisements depends on the contents of the ranges dict only: the
    order in which the dict enumerates its entries changes nothing in the
    outcome. *)
Theorem ParseAdvertisements_ranges_order
    (resource_class : ResourceClass)
    (mode_arg : option string) (groups_arg : option (list string))
    (r1 r2 : PyDict (option string)) :
  dict_wf r1 → dict_wf r2 → contents r1 = contents r2 →
  ParseAdvertisements resource_class (mkArgs mode_arg groups_arg (Some r1))
  = ParseAdvertisements resource_class (mkArgs mode_arg groups_arg (Some r2)).
Proof.
  intros Hwf1 Hwf2 Hsame. unfold ParseAdvertisements. simpl.
  by rewrite (ParsePrefixes_perm_items r1 r2)
    by (by apply same_contents_perm).
Qed.

Lemma ParseAdvertisements_ranges_order_witness :
  ParseAdvertisements RouterBgp
    (mkArgs (Some "CUSTOM") None
       (Some (mkDict [("10.0.0.0/8", Some ""); ("1.2.3.0/24", Some "b")])))
  = ParseAdvertisements RouterBgp
      (mkArgs (Some "CUSTOM") None
         (Some (mkDict [("1.2.3.0/24", Some "b"); ("10.0.0.0/8", Some "")]))).
Proof.
  apply ParseAdvertisements_ranges_order.
  - dict_wf_by_computation.
  - dict_wf_by_computation.
  - unfold contents; simpl. apply insert_insert_ne. discriminate.
Defined.


(** ** ParseAdvertisements without default mode *)

(** C5, amended: when the mode is absent or parses to CUSTOM,
    ParseAdvertisements never raises CustomWithDefaultError; and when the
    supplied groups convert to the group enum (or none are supplied), it
    returns the three values as parsed: the mode (absent if absent), the
    groups converted element-wise to the group enum (absent if absent), the
    ranges converted and sorted by ParsePrefixes (absent if absent). *)
Theorem ParseAdvertisements_custom_or_absent
    (resource_class : ResourceClass) (args : Args) :
  mode args = None
  ∨ (∃ m, mode args = Some m
          ∧ ParseMode resource_class m = Return (mkEnum resource_class CUSTOM)) →
  (∀ msg, ParseAdvertisements resource_class args
            ≠ Throw (CustomWithDefaultError msg))
  ∧ (∀ groups',
       parse_if_given (ParseGroups resource_class) (groups args)
         = Return groups' →
       groups' = group_members resource_class <$> groups args
       ∧ ParseAdvertisements resource_class args
         = Return ((λ _, mkEnum resource_class CUSTOM) <$> mode args,
                   groups',
                   ParsePrefixes <$> ranges args)).
Proof.
  intros Hmode.
  assert (parse_if_given (ParseMode resource_class) (mode args)
          = Return ((λ _, mkEnum resource_class CUSTOM) <$> mode args))
    as Hparsed.
  { destruct Hmode as [-> | (m & -> & Hparse)]; simpl; [done|].
    by rewrite Hparse. }
  assert ((λ _, mkEnum resource_class CUSTOM) <$> mode args
          ≠ Some (mkEnum resource_class DEFAULT)) as Hnot_default.
  { by destruct (mode args). }
  split.
  - intros msg Hthrow.
    destruct (ParseAdvertisements_cases resource_class args)
      as [(e & He & _ & Heq)|[(mode' & e & He & _ & _ & Heq)
                             |(mode' & groups' & Hm & Hg)]].
    + rewrite Heq in Hthrow. injection Hthrow as ->. done.
    + rewrite Heq in Hthrow. injection Hthrow as ->. done.
    + rewrite Hparsed in Hm. injection Hm as <-.
      rewrite (ParseAdvertisements_converted _ _ _ _ Hparsed Hg) in Hthrow.
      by rewrite bool_decide_eq_false_2 in Hthrow.
  - intros groups' Hg. split.
    + destruct (parse_if_given_Return _ _ _ Hg)
        as [[-> ->]|(g & gs & -> & Hgs & ->)]; [done|].
      by apply ParseGroups_Return in Hgs as (_ & _ & ->).
    + rewrite (ParseAdvertisements_converted _ _ _ _ Hparsed Hg).
      by rewrite bool_decide_eq_false_2.
Qed.

Lemma ParseAdvertisements_custom_or_absent_witness :
  ParseAdvertisements RouterBgp
    (mkArgs (Some "CUSTOM") (Some ["ALL_SUBNETS"])
       (Some (mkDict [("10.0.0.0/8", Some ""); ("1.2.3.0/24", None)])))
  = Return (Some (mkEnum RouterBgp CUSTOM),
            Some [mkEnum RouterBgp ALL_SUBNETS],
            Some [mkPrefix "1.2.3.0/24" None; mkPrefix "10.0.0.0/8" (Some "")]).
Proof.
  refine (proj2 (proj2 (ParseAdvertisements_custom_or_absent RouterBgp
                          (mkArgs (Some "CUSTOM") (Some ["ALL_SUBNETS"])
                             (Some (mkDict [("10.0.0.0/8", Some "");
                                            ("1.2.3.0/24", None)])))
                          _)
                   (Some [mkEnum RouterBgp ALL_SUBNETS]) _)).
  - right. by exists "CUSTOM".
  - reflexivity.
Defined.

(** The amended statement also covers a class without the enums when
    neither a mode nor groups are supplied: nothing is looked up on it. *)
Example ParseAdvertisements_no_flags_other_class :
  ParseAdvertisements (OtherClass "<class 'RouterInterface'>" false)
    (mkArgs None None (Some (mkDict [("10.0.0.0/8", None)])))
  = Return (None, None, Some [mkPrefix "10.0.0.0/8" None]).
Proof. reflexivity. Qed.

(** C5 as it is written, for every argument set without a mode, fails: with
    a group name that is no member of the enum nothing is returned, the
    conversion of the groups raises. *)
Lemma ParseAdvertisements_custom_or_absent_counterexample :
  ParseAdvertisements RouterBgp (mkArgs None (Some ["ALL_ROUTES"]) None)
  = Throw (TypeError
      "No such value for ALL_ROUTES in Enum AdvertisedGroupsValueListEntryValuesEnum")
  ∧ ¬ (∀ (resource_class : ResourceClass) (args : Args),
         mode args = None
         ∨ (∃ m, mode args = Some m
                 ∧ ParseMode resource_class m
                   = Return (mkEnum resource_class CUSTOM)) →
         ∃ groups',
           ParseAdvertisements resource_class args
             = Return ((λ _, mkEnum resource_class CUSTOM) <$> mode args,
                       groups',
                       ParsePrefixes <$> ranges args)).
Proof.
  split; [reflexivity|]. intros Hclaim.
  destruct (Hclaim RouterBgp (mkArgs None (Some ["ALL_ROUTES"]) None))
    as [groups' Hret]; [by left|].
  discriminate Hret.
Qed.
